(** * Verification of the array transforms of [01_CARE/transforms.py]

    The module defines [normalize], [denormalize], the rotate-and-flip
    primitive [_flip_and_rotate] (built on [np.rot90] and [np.flip]) and the
    paired augmentation [augment_batch].

    A numpy array is modelled as numpy stores it: a shape (a list of axis
    lengths) and the C-ordered (row-major) flat buffer of its elements. *)

From Stdlib Require Import List Arith Lia ZArith Reals Floats Sorting.Permutation.
Import ListNotations.


(** ** Arrays *)

(** Element type of an array; [dtype_zero] is only the fallback of an
    out-of-range read of the buffer and is never read in range. *)
Class DType (A : Type) := dtype_zero : A.

#[global] Instance DType_Z : DType Z := 0%Z.
#[global] Instance DType_R : DType R := 0%R.
#[global] Instance DType_float : DType float := 0%float.

Record ndarray (A : Type) := mk_nd { shape : list nat; data : list A }.
Arguments mk_nd {A} _ _.
Arguments shape {A} _.
Arguments data {A} _.

(** Number of elements of an array of the given shape. *)
Definition size (s : list nat) : nat := fold_right Nat.mul 1 s.

(** A numpy array always has a buffer of [size shape] elements. *)
Definition wf {A} (x : ndarray A) : Prop := length (data x) = size (shape x).

Definition ndim {A} (x : ndarray A) : nat := length (shape x).

(** Split a shape of at least two axes into its leading axes and the
    lengths [h], [w] of the axes -2 and -1. *)
Definition split_last2 (s : list nat) : option (list nat * nat * nat) :=
  match rev s with
  | w :: h :: rlead => Some (rev rlead, h, w)
  | _ => None
  end.

Section Planes.
Context {A : Type} `{DType A}.

(** Element [b, r, c] of a buffer read as [P] planes of [h] rows of [w]
    columns ([b] is the flat index over the leading axes). *)
Definition get (h w : nat) (d : list A) (b r c : nat) : A :=
  nth ((b * h + r) * w + c) d dtype_zero.

(** The C-ordered buffer of [P] planes of [h] x [w] elements. *)
Definition build (P h w : nat) (f : nat -> nat -> nat -> A) : list A :=
  flat_map (fun b => flat_map (fun r => map (fun c => f b r c) (seq 0 w))
                              (seq 0 h))
           (seq 0 P).

End Planes.

(** ** The numpy primitives used by [_flip_and_rotate]

    Each acts on the last two axes of an array of at least two axes; the
    leading axes are folded into the plane index [b]. The [None] branch of
    [split_last2] is not reached: [np.rot90] has rejected such arrays before. *)

Section Numpy.
Context {A : Type} `{DType A}.

(** [np.flip(m, axis=-1)]. *)
Definition flip_last (x : ndarray A) : ndarray A :=
  match split_last2 (shape x) with
  | Some (lead, h, w) =>
      mk_nd (shape x)
        (build (size lead) h w (fun b r c => get h w (data x) b r (w - 1 - c)))
  | None => x
  end.

(** [np.flip(m, axis=-2)]. *)
Definition flip_rows (x : ndarray A) : ndarray A :=
  match split_last2 (shape x) with
  | Some (lead, h, w) =>
      mk_nd (shape x)
        (build (size lead) h w (fun b r c => get h w (data x) b (h - 1 - r) c))
  | None => x
  end.

(** [np.transpose(m, axes_list)] where [axes_list] is [0 .. ndim-1] with
    its last two entries swapped. *)
Definition swap_last2 (x : ndarray A) : ndarray A :=
  match split_last2 (shape x) with
  | Some (lead, h, w) =>
      mk_nd (lead ++ [w; h])
        (build (size lead) w h (fun b r c => get h w (data x) b c r))
  | None => x
  end.

(** [np.rot90(m, k, axes=(-2, -1))]. [None] is the [ValueError] numpy
    raises when the axes -2 and -1 are not two distinct axes of [m], that is
    when [m.ndim < 2]. Then [k %= 4] (Python's modulo, [Z.modulo]) and:
    [k = 0]: [m[:]]; [k = 2]: [flip(flip(m, -2), -1)];
    [k = 1]: [transpose(flip(m, -1), axes_list)];
    [k = 3]: [flip(transpose(m, axes_list), -1)]. *)
Definition rot90 (m : ndarray A) (k : Z) : option (ndarray A) :=
  if ndim m <? 2 then None
  else match (k mod 4)%Z with
       | 0%Z => Some m
       | 2%Z => Some (flip_last (flip_rows m))
       | 1%Z => Some (swap_last2 (flip_last m))
       | _ => Some (flip_last (swap_last2 m))
       end.

(** [_flip_and_rotate(image, rotate_state, flip_state)]; [.copy()] makes a
    fresh buffer with the same shape and elements. *)
Definition _flip_and_rotate (image : ndarray A) (rotate_state flip_state : Z)
    : option (ndarray A) :=
  match rot90 image rotate_state with
  | None => None
  | Some rotated =>
      let flipped := if Z.eqb flip_state 1 then flip_last rotated else rotated in
      Some flipped
  end.

End Numpy.

(** ** [augment_batch]

    [np.random.default_rng(seed)] builds a fresh generator from the seed
    alone, and [rng.integers(lo, hi)] draws from it and advances it. The
    generator algorithm is numpy's; it is a parameter here, so every result
    below holds for any generator. numpy accepts every non-negative integer
    seed and raises [ValueError] (expected non-negative integer) on a
    negative one: that check is written out in [seeded_rng]. *)

Section Augment.
Context {A : Type} `{DType A}.
Variable Generator : Type.
Variable default_rng : Z -> Generator.
Variable integers : Generator -> Z -> Z -> Z * Generator.

(** A Python call that raises in its first or second [_flip_and_rotate]
    returns no tuple. *)
Definition pair_results (a b : option (ndarray A)) : option (ndarray A * ndarray A) :=
  match a, b with
  | Some a', Some b' => Some (a', b')
  | _, _ => None
  end.

(** [np.random.default_rng(seed)] for an integer seed: [None] is the
    [ValueError] raised on a negative seed. *)
Definition seeded_rng (seed : Z) : option Generator :=
  if (seed <? 0)%Z then None else Some (default_rng seed).

Definition augment_batch (patch target : ndarray A) (seed : Z)
    : option (ndarray A * ndarray A) :=
  match seeded_rng seed with
  | None => None
  | Some rng =>
      let (rotate_state, rng1) := integers rng 0 4 in
      let (flip_state, _) := integers rng1 0 2 in
      pair_results (_flip_and_rotate patch rotate_state flip_state)
                   (_flip_and_rotate target rotate_state flip_state)
  end.

End Augment.

Arguments augment_batch {A _ Generator} default_rng integers patch target seed.

(** A generator that replays a fixed list of draws: it stands for whichever
    values numpy's generator returns, to evaluate [augment_batch] on each of
    them. *)
Definition scripted_rng (draws : list Z) : Z -> list Z := fun _ => draws.

Definition scripted_integers (g : list Z) (lo hi : Z) : Z * list Z :=
  match g with
  | v :: g' => (v, g')
  | [] => (lo, [])
  end.

(** The values [rng.integers(0, 4)] and then [rng.integers(0, 2)] can
    return: [{0,1,2,3} x {0,1}]. *)
Definition numpy_draws : list (Z * Z) := list_prod [0; 1; 2; 3]%Z [0; 1]%Z.

(** ** [normalize] and [denormalize]

    The arithmetic of the array's dtype, applied elementwise with the
    scalar broadcast over the array. *)

Class Arith (A : Type) := {
  a_add : A -> A -> A; a_sub : A -> A -> A;
  a_mul : A -> A -> A; a_div : A -> A -> A }.

(** Exact arithmetic. *)
#[global] Instance Arith_R : Arith R :=
  { a_add := Rplus; a_sub := Rminus; a_mul := Rmult; a_div := Rdiv }.

(** numpy's [float64]: IEEE-754 binary64 with round-to-nearest. *)
#[global] Instance Arith_float : Arith float :=
  { a_add := PrimFloat.add; a_sub := PrimFloat.sub;
    a_mul := PrimFloat.mul; a_div := PrimFloat.div }.

Definition normalize {A} `{Arith A} (image : ndarray A) (mean std : A) : ndarray A :=
  mk_nd (shape image) (map (fun v => a_div (a_sub v mean) std) (data image)).

Definition denormalize {A} `{Arith A} (image : ndarray A) (mean std : A) : ndarray A :=
  mk_nd (shape image) (map (fun v => a_add (a_mul v std) mean) (data image)).

(** ** What [np.rot90] and [np.flip] compute, element by element *)

Section RotationData.
Context {A : Type} `{DType A}.

(** [out[b, r, c] = in[b, r, w-1-c]], shape [h x w]. *)
Definition flip_cols_data (P h w : nat) (d : list A) : list A :=
  build P h w (fun b r c => get h w d b r (w - 1 - c)).

(** One counter-clockwise quarter turn: [out[b, r, c] = in[b, c, w-1-r]],
    shape [w x h]. *)
Definition rot1_data (P h w : nat) (d : list A) : list A :=
  build P w h (fun b r c => get h w d b c (w - 1 - r)).

(** Half turn: [out[b, r, c] = in[b, h-1-r, w-1-c]], shape [h x w]. *)
Definition rot2_data (P h w : nat) (d : list A) : list A :=
  build P h w (fun b r c => get h w d b (h - 1 - r) (w - 1 - c)).

(** Three quarter turns: [out[b, r, c] = in[b, h-1-c, r]], shape [w x h]. *)
Definition rot3_data (P h w : nat) (d : list A) : list A :=
  build P w h (fun b r c => get h w d b (h - 1 - c) r).

(** The array [np.rot90] returns for [k mod 4 = q]. *)
Definition rotated (lead : list nat) (h w : nat) (d : list A) (q : Z) : ndarray A :=
  match q with
  | 0%Z => mk_nd (lead ++ [h; w]) d
  | 1%Z => mk_nd (lead ++ [w; h]) (rot1_data (size lead) h w d)
  | 2%Z => mk_nd (lead ++ [h; w]) (rot2_data (size lead) h w d)
  | _ => mk_nd (lead ++ [w; h]) (rot3_data (size lead) h w d)
  end.

End RotationData.

(** Sequencing of calls that may raise. *)
Definition obind {X Y} (m : option X) (f : X -> option Y) : option Y :=
  match m with Some x => f x | None => None end.

(** The arrays of the spec's concrete scenario, and a non-square one. *)
Definition patch22 : ndarray Z := mk_nd [2; 2] [1; 2; 3; 4]%Z.
Definition target22 : ndarray Z := mk_nd [2; 2] [5; 6; 7; 8]%Z.
Definition patch23 : ndarray Z := mk_nd [2; 3] [1; 2; 3; 4; 5; 6]%Z.
Definition batch223 : ndarray Z := mk_nd [2; 2; 3] (map Z.of_nat (seq 0 12)).
Definition vector3 : ndarray Z := mk_nd [3] [1; 2; 3]%Z.

(** Two [float64] scalars, written exactly: [2^1000] and [2^-100]. *)
Definition big_value : float := 0x1p1000%float.
Definition small_std : float := 0x1p-100%float.
Definition big_image : ndarray float := mk_nd [1] [big_value].

#[global] Instance DType_nat : DType nat := 0.

(** Elementwise application of a scalar function, as a numpy ufunc or an
    [astype] does it: same shape, each element mapped. *)
Definition nd_map {A B} (g : A -> B) (x : ndarray A) : ndarray B :=
  mk_nd (shape x) (map g (data x)).

(** The index map of a shape: the array whose element at flat position [i]
    is [i]. *)
Definition index_map (s : list nat) : ndarray nat := mk_nd s (seq 0 (size s)).

(** [np.rot90(m, 1, axes=(-2, -1))] on an array of at least two axes:
    [transpose(flip(m, -1), axes_list)]. *)
Definition quarter {A} `{DType A} (x : ndarray A) : ndarray A :=
  swap_last2 (flip_last x).

Section Shaped.
Context {A : Type} `{DType A}.

(** Arrays with at least two axes and a buffer of the right length. *)
Definition shaped (x : ndarray A) : Prop := wf x /\ 2 <= ndim x.

(** The flip step of [_flip_and_rotate]. *)
Definition flip_if (f : Z) (y : ndarray A) : ndarray A :=
  if Z.eqb f 1 then flip_last y else y.

End Shaped.

(** ** Buffers of planes *)

Lemma size_app (s1 s2 : list nat) : size (s1 ++ s2) = size s1 * size s2.
Proof. induction s1 as [|n s1 IH]; simpl; [lia | rewrite IH; lia]. Qed.

Lemma split_last2_app (lead : list nat) (h w : nat) :
  split_last2 (lead ++ [h; w]) = Some (lead, h, w).
Proof.
  unfold split_last2.
  replace (lead ++ [h; w]) with ((lead ++ [h]) ++ [w]) by (rewrite <- app_assoc; reflexivity).
  rewrite !rev_app_distr; simpl; rewrite rev_involutive; reflexivity.
Qed.

(** An array of at least two axes has the shape [lead ++ [h; w]]. *)
Lemma split_last2_spec (s : list nat) :
  2 <= length s -> exists lead h w, s = lead ++ [h; w].
Proof.
  intros Hs. destruct (rev s) as [|w [|h rl]] eqn:E.
  - apply (f_equal (@length nat)) in E. rewrite length_rev in E; simpl in E; lia.
  - apply (f_equal (@length nat)) in E. rewrite length_rev in E; simpl in E; lia.
  - exists (rev rl), h, w.
    rewrite <- (rev_involutive s), E. simpl. rewrite <- app_assoc. reflexivity.
Qed.

Lemma flat_map_ext_in {B C} (f g : B -> list C) (l : list B) :
  (forall x, In x l -> f x = g x) -> flat_map f l = flat_map g l.
Proof.
  induction l as [|a l IH]; intros E; simpl; [reflexivity|].
  rewrite E, IH; [reflexivity | intros; apply E; simpl; auto | simpl; auto].
Qed.

Section PlaneLemmas.
Context {A : Type} `{DType A}.

Lemma length_flat_map_chunks {B} (g : B -> list A) (l : list B) (k : nat) :
  (forall x, In x l -> length (g x) = k) -> length (flat_map g l) = length l * k.
Proof.
  induction l as [|a l IH]; intros Hk; simpl; [reflexivity|].
  rewrite length_app, Hk, IH; [lia | intros; apply Hk; simpl; auto | simpl; auto].
Qed.

Lemma length_build (P h w : nat) (f : nat -> nat -> nat -> A) :
  length (build P h w f) = P * h * w.
Proof.
  unfold build. rewrite (@length_flat_map_chunks _ _ _ (h * w)), length_seq; [lia|].
  intros b _. rewrite (@length_flat_map_chunks _ _ _ w), length_seq; [reflexivity|].
  intros r _. rewrite length_map, length_seq. reflexivity.
Qed.

(** Reading a flattened list of chunks of a common length [k]. *)
Lemma nth_flat_map_chunks {B} (g : B -> list A) (l : list B) (k i j : nat) (x0 : B) :
  (forall x, In x l -> length (g x) = k) -> i < length l -> j < k ->
  nth (i * k + j) (flat_map g l) dtype_zero = nth j (g (nth i l x0)) dtype_zero.
Proof.
  revert i. induction l as [|a l IH]; intros i Hk Hi Hj; simpl in Hi; [lia|].
  simpl. destruct i as [|i].
  - simpl. rewrite app_nth1; [reflexivity|]. rewrite Hk; simpl; auto.
  - rewrite app_nth2; rewrite Hk by (simpl; auto); [|lia].
    replace (S i * k + j - k) with (i * k + j) by lia.
    apply IH; [intros; apply Hk; simpl; auto | lia | lia].
Qed.

Lemma get_build (P h w : nat) (f : nat -> nat -> nat -> A) (b r c : nat) :
  b < P -> r < h -> c < w -> get h w (build P h w f) b r c = f b r c.
Proof.
  intros Hb Hr Hc. unfold get, build.
  replace ((b * h + r) * w + c) with (b * (h * w) + (r * w + c)) by ring.
  rewrite (@nth_flat_map_chunks _ _ _ (h * w) b (r * w + c) 0).
  - rewrite seq_nth by lia. simpl.
    rewrite (@nth_flat_map_chunks _ _ _ w r c 0).
    + rewrite seq_nth by lia. simpl.
      rewrite (nth_indep _ _ (f b r 0)) by (rewrite length_map, length_seq; lia).
      rewrite map_nth, seq_nth by lia. reflexivity.
    + intros; rewrite length_map, length_seq; reflexivity.
    + rewrite length_seq; lia.
    + lia.
  - intros x _. rewrite (@length_flat_map_chunks _ _ _ w), length_seq; [reflexivity|].
    intros; rewrite length_map, length_seq; reflexivity.
  - rewrite length_seq; lia.
  - nia.
Qed.

Lemma build_ext (P h w : nat) (f g : nat -> nat -> nat -> A) :
  (forall b r c, b < P -> r < h -> c < w -> f b r c = g b r c) ->
  build P h w f = build P h w g.
Proof.
  intros E. unfold build. apply flat_map_ext_in. intros b Hb.
  apply flat_map_ext_in. intros r Hr. apply map_ext_in. intros c Hc.
  apply in_seq in Hb, Hr, Hc. apply E; lia.
Qed.

Lemma build_get (P h w : nat) (d : list A) :
  length d = P * h * w -> build P h w (get h w d) = d.
Proof.
  intros Hd. apply nth_ext with (d := dtype_zero) (d' := dtype_zero).
  { rewrite length_build; auto. }
  intros i Hi. rewrite length_build in Hi.
  assert (Hhw : h * w <> 0) by (intro E; rewrite <- Nat.mul_assoc, E in Hi; lia).
  assert (Hw : w <> 0) by (intro; subst; lia).
  set (b := i / (h * w)). set (q := i mod (h * w)).
  assert (Hi' : i = b * (h * w) + q) by (unfold b, q; rewrite Nat.mul_comm; apply Nat.div_mod; auto).
  assert (Hq : q < h * w) by (apply Nat.mod_upper_bound; auto).
  assert (Hb : b < P) by (unfold b; apply Nat.Div0.div_lt_upper_bound; rewrite Nat.mul_comm, Nat.mul_assoc; lia).
  set (r := q / w). set (c := q mod w).
  assert (Hq' : q = r * w + c) by (unfold r, c; rewrite Nat.mul_comm; apply Nat.div_mod; auto).
  assert (Hc : c < w) by (apply Nat.mod_upper_bound; auto).
  assert (Hr : r < h) by (unfold r; apply Nat.Div0.div_lt_upper_bound; lia).
  assert (Ei : i = (b * h + r) * w + c) by (rewrite Hi', Hq'; ring).
  rewrite Ei at 1. fold (get h w (build P h w (get h w d)) b r c).
  rewrite get_build by auto. unfold get. rewrite <- Ei. reflexivity.
Qed.

End PlaneLemmas.

Section Rotations.
Context {A : Type} `{DType A}.

Lemma ndim_app2 (lead : list nat) (h w : nat) (d : list A) :
  (ndim (mk_nd (lead ++ [h; w]) d) <? 2) = false.
Proof. unfold ndim; simpl. rewrite length_app; simpl. apply Nat.ltb_ge. lia. Qed.

Lemma flip_last_app (lead : list nat) (h w : nat) (d : list A) :
  flip_last (mk_nd (lead ++ [h; w]) d)
  = mk_nd (lead ++ [h; w]) (flip_cols_data (size lead) h w d).
Proof. unfold flip_last; simpl; rewrite split_last2_app; reflexivity. Qed.

Lemma flip_last_shape (x : ndarray A) : shape (flip_last x) = shape x.
Proof. unfold flip_last. destruct (split_last2 (shape x)) as [[[l h] w]|]; reflexivity. Qed.

Lemma rot90_app (lead : list nat) (h w : nat) (d : list A) (k : Z) :
  rot90 (mk_nd (lead ++ [h; w]) d) k = Some (rotated lead h w d (k mod 4)).
Proof.
  unfold rot90. rewrite ndim_app2.
  assert (Hq : (0 <= k mod 4 < 4)%Z) by (apply Z.mod_pos_bound; lia).
  destruct (k mod 4)%Z as [|[q|q|]|] eqn:E; try lia.
  - reflexivity.
  - (* k mod 4 = 3 *)
    destruct q as [q|q|]; try lia.
    unfold swap_last2; simpl; rewrite split_last2_app, flip_last_app.
    simpl. unfold flip_cols_data, rot3_data. f_equal. f_equal.
    apply build_ext. intros b r c Hb Hr Hc.
    rewrite get_build by lia. reflexivity.
  - (* k mod 4 = 2 *)
    destruct q as [q|q|]; try lia.
    unfold flip_rows; simpl; rewrite split_last2_app, flip_last_app.
    simpl. unfold flip_cols_data, rot2_data. f_equal. f_equal.
    apply build_ext. intros b r c Hb Hr Hc.
    rewrite get_build by lia. reflexivity.
  - (* k mod 4 = 1 *)
    rewrite flip_last_app. unfold swap_last2; simpl; rewrite split_last2_app.
    simpl. unfold flip_cols_data, rot1_data. f_equal. f_equal.
    apply build_ext. intros b r c Hb Hr Hc.
    rewrite get_build by lia. reflexivity.
Qed.

End Rotations.

Section Compositions.
Context {A : Type} `{DType A}.

Lemma flip_cols_data_twice (P h w : nat) (d : list A) :
  length d = P * h * w -> flip_cols_data P h w (flip_cols_data P h w d) = d.
Proof.
  intros Hd. unfold flip_cols_data at 1. transitivity (build P h w (get h w d)); [| apply build_get; exact Hd].
  apply build_ext. intros b r c Hb Hr Hc. unfold flip_cols_data.
  rewrite get_build by lia. f_equal. lia.
Qed.

Lemma rot1_data_twice (P h w : nat) (d : list A) :
  rot1_data P w h (rot1_data P h w d) = rot2_data P h w d.
Proof.
  unfold rot1_data at 1, rot2_data. apply build_ext. intros b r c Hb Hr Hc.
  unfold rot1_data. rewrite get_build by lia. reflexivity.
Qed.

Lemma rot2_data_twice (P h w : nat) (d : list A) :
  length d = P * h * w -> rot2_data P h w (rot2_data P h w d) = d.
Proof.
  intros Hd. unfold rot2_data at 1. transitivity (build P h w (get h w d)); [| apply build_get; exact Hd].
  apply build_ext. intros b r c Hb Hr Hc. unfold rot2_data.
  rewrite get_build by lia. f_equal; lia.
Qed.

Lemma flip_and_rotate_app (lead : list nat) (h w : nat) (d : list A) (k f : Z) :
  _flip_and_rotate (mk_nd (lead ++ [h; w]) d) k f
  = Some (if Z.eqb f 1 then flip_last (rotated lead h w d (k mod 4))
          else rotated lead h w d (k mod 4)).
Proof. unfold _flip_and_rotate. rewrite rot90_app. reflexivity. Qed.

(** A well-formed array of at least two axes, split into its leading axes,
    its last two axis lengths and its buffer. *)
Lemma wf_split (x : ndarray A) :
  wf x -> 2 <= ndim x ->
  exists lead h w, x = mk_nd (lead ++ [h; w]) (data x)
                   /\ length (data x) = size lead * h * w.
Proof.
  intros Hwf Hn. destruct (split_last2_spec (shape x) Hn) as (lead & h & w & E).
  exists lead, h, w. split.
  - destruct x; simpl in *; subst; reflexivity.
  - unfold wf in Hwf. rewrite Hwf, E, size_app. simpl. lia.
Qed.

End Compositions.

(** One call of [_flip_and_rotate] on an array split as [lead ++ [h; w]],
    with constant states. *)
Ltac step_far :=
  rewrite flip_and_rotate_app; cbn [obind];
  match goal with
  | |- context [(?k mod 4)%Z] => let q := eval vm_compute in (k mod 4)%Z in
                                 change ((k mod 4)%Z) with q
  end;
  cbn [rotated Z.eqb Pos.eqb].

Section Totality.
Context {A : Type} `{DType A}.

Lemma flip_and_rotate_some (x : ndarray A) (k f : Z) :
  2 <= ndim x -> exists y, _flip_and_rotate x k f = Some y.
Proof.
  intros Hn. destruct (split_last2_spec (shape x) Hn) as (lead & h & w & E).
  destruct x as [s d]; cbn [shape] in E; subst s.
  rewrite flip_and_rotate_app. eexists; reflexivity.
Qed.

Lemma flip_and_rotate_raises (x : ndarray A) (k f : Z) :
  ndim x < 2 -> _flip_and_rotate x k f = None.
Proof.
  intros Hn. unfold _flip_and_rotate, rot90.
  apply Nat.ltb_lt in Hn. rewrite Hn. reflexivity.
Qed.

Lemma rot90_mod (x : ndarray A) (k : Z) : rot90 x (k mod 4) = rot90 x k.
Proof. unfold rot90. rewrite Zmod_mod. reflexivity. Qed.

End Totality.

Lemma flat_index_bound (P h w b r c : nat) :
  b < P -> r < h -> c < w -> (b * h + r) * w + c < P * h * w.
Proof.
  intros Hb Hr Hc.
  assert (E1 : b * h + r < P * h) by nia.
  assert (E2 : (b * h + r) * w + c < (b * h + r) * w + w) by lia.
  assert (E3 : (b * h + r) * w + w = (b * h + r + 1) * w) by ring.
  assert (E4 : (b * h + r + 1) * w <= P * h * w) by (apply Nat.mul_le_mono_r; lia).
  lia.
Qed.

Section DataFacts.
Context {A : Type} `{DType A}.

Lemma in_build (P h w : nat) (f : nat -> nat -> nat -> A) (v : A) :
  In v (build P h w f) ->
  exists b r c, b < P /\ r < h /\ c < w /\ v = f b r c.
Proof.
  unfold build. intros Hv.
  apply in_flat_map in Hv as (b & Hb & Hv).
  apply in_flat_map in Hv as (r & Hr & Hv).
  apply in_map_iff in Hv as (c & Hv & Hc).
  apply in_seq in Hb, Hr, Hc.
  exists b, r, c. repeat split; try lia. symmetry; exact Hv.
Qed.

Lemma get_in (P h w : nat) (d : list A) (b r c : nat) :
  length d = P * h * w -> b < P -> r < h -> c < w -> In (get h w d b r c) d.
Proof. intros Hd Hb Hr Hc. unfold get. apply nth_In. rewrite Hd. apply flat_index_bound; auto. Qed.

Lemma map_build {B} (g : A -> B) (P h w : nat) (f : nat -> nat -> nat -> A) :
  map g (build P h w f) = build P h w (fun b r c => g (f b r c)).
Proof.
  unfold build. rewrite flat_map_concat_map, concat_map, map_map.
  rewrite flat_map_concat_map. f_equal. apply map_ext. intros b.
  rewrite flat_map_concat_map, concat_map, map_map.
  rewrite flat_map_concat_map. f_equal. apply map_ext. intros r.
  rewrite map_map. reflexivity.
Qed.

Lemma get_map {B} `{DType B} (g : A -> B) (P h w : nat) (d : list A) (b r c : nat) :
  length d = P * h * w -> b < P -> r < h -> c < w ->
  get h w (map g d) b r c = g (get h w d b r c).
Proof.
  intros Hd Hb Hr Hc. unfold get.
  rewrite (nth_indep _ _ (g dtype_zero)) by (rewrite length_map, Hd; apply flat_index_bound; auto).
  apply map_nth.
Qed.

Lemma rot1_rot2_data (P h w : nat) (d : list A) :
  rot1_data P h w (rot2_data P h w d) = rot3_data P h w d.
Proof.
  unfold rot1_data at 1, rot3_data. apply build_ext. intros b r c Hb Hr Hc.
  unfold rot2_data. rewrite get_build by lia. f_equal. lia.
Qed.

(** Flipping, turning a quarter and flipping back turns three quarters. *)
Lemma flip_rot1_flip_data (P h w : nat) (d : list A) :
  flip_cols_data P w h (rot1_data P h w (flip_cols_data P h w d)) = rot3_data P h w d.
Proof.
  unfold flip_cols_data at 1, rot3_data. apply build_ext. intros b r c Hb Hr Hc.
  unfold rot1_data. rewrite get_build by lia.
  unfold flip_cols_data. rewrite get_build by lia. f_equal. lia.
Qed.

End DataFacts.

Section QuarterTurns.
Context {A : Type} `{DType A}.

Lemma quarter_app (lead : list nat) (h w : nat) (d : list A) :
  quarter (mk_nd (lead ++ [h; w]) d)
  = mk_nd (lead ++ [w; h]) (rot1_data (size lead) h w d).
Proof.
  unfold quarter. rewrite flip_last_app. unfold swap_last2; cbn [shape data].
  rewrite split_last2_app. unfold rot1_data, flip_cols_data. f_equal.
  apply build_ext. intros b r c Hb Hr Hc. rewrite get_build by lia. reflexivity.
Qed.

Lemma shaped_app (lead : list nat) (h w : nat) (d : list A) :
  length d = size lead * h * w -> shaped (mk_nd (lead ++ [h; w]) d).
Proof.
  intros Hd. split.
  - unfold wf; cbn [shape data]. rewrite Hd, size_app. simpl. lia.
  - unfold ndim; cbn [shape]. rewrite length_app. simpl. lia.
Qed.

Lemma shaped_split (x : ndarray A) :
  shaped x -> exists lead h w d,
    x = mk_nd (lead ++ [h; w]) d /\ length d = size lead * h * w.
Proof.
  intros [Hwf Hn]. destruct (wf_split x Hwf Hn) as (lead & h & w & Ex & Hd).
  exists lead, h, w, (data x). auto.
Qed.

Lemma quarter_shaped (x : ndarray A) : shaped x -> shaped (quarter x).
Proof.
  intros Hx. destruct (shaped_split x Hx) as (lead & h & w & d & -> & Hd).
  rewrite quarter_app. apply shaped_app. unfold rot1_data. rewrite length_build. lia.
Qed.

Lemma flip_last_shaped (x : ndarray A) : shaped x -> shaped (flip_last x).
Proof.
  intros Hx. destruct (shaped_split x Hx) as (lead & h & w & d & -> & Hd).
  rewrite flip_last_app. apply shaped_app. unfold flip_cols_data. rewrite length_build. lia.
Qed.

Lemma iter_quarter_shaped (n : nat) (x : ndarray A) :
  shaped x -> shaped (Nat.iter n quarter x).
Proof. intros Hx. induction n as [|n IH]; simpl; [exact Hx | apply quarter_shaped, IH]. Qed.

Lemma flip_last_twice (x : ndarray A) : shaped x -> flip_last (flip_last x) = x.
Proof.
  intros Hx. destruct (shaped_split x Hx) as (lead & h & w & d & -> & Hd).
  rewrite !flip_last_app, flip_cols_data_twice by exact Hd. reflexivity.
Qed.

Lemma iter_quarter_app (lead : list nat) (h w : nat) (d : list A) :
  length d = size lead * h * w ->
  Nat.iter 1 quarter (mk_nd (lead ++ [h; w]) d) = rotated lead h w d 1 /\
  Nat.iter 2 quarter (mk_nd (lead ++ [h; w]) d) = rotated lead h w d 2 /\
  Nat.iter 3 quarter (mk_nd (lead ++ [h; w]) d) = rotated lead h w d 3 /\
  Nat.iter 4 quarter (mk_nd (lead ++ [h; w]) d) = mk_nd (lead ++ [h; w]) d.
Proof.
  intros Hd. unfold Nat.iter; cbn [nat_rect rotated]. rewrite !quarter_app, !rot1_data_twice.
  rewrite rot1_rot2_data, rot2_data_twice by exact Hd.
  repeat split; reflexivity.
Qed.

Lemma iter_quarter_4 (x : ndarray A) : shaped x -> Nat.iter 4 quarter x = x.
Proof.
  intros Hx. destruct (shaped_split x Hx) as (lead & h & w & d & -> & Hd).
  apply (iter_quarter_app lead h w d Hd).
Qed.

Lemma iter_quarter_mod (n : nat) (x : ndarray A) :
  shaped x -> Nat.iter n quarter x = Nat.iter (n mod 4) quarter x.
Proof.
  intros Hx. pose proof (Nat.div_mod_eq n 4) as E.
  replace (Nat.iter n quarter x) with (Nat.iter (4 * (n / 4) + n mod 4) quarter x)
    by (rewrite <- E; reflexivity).
  rewrite Nat.iter_add. clear E.
  pose proof (iter_quarter_shaped (n mod 4) x Hx) as Hy. revert Hy.
  generalize (Nat.iter (n mod 4) quarter x) as y. intros y Hy.
  induction (n / 4) as [|m IH]; [reflexivity|].
  replace (4 * S m) with (4 + 4 * m) by lia. rewrite Nat.iter_add, IH.
  apply iter_quarter_4. exact Hy.
Qed.

(** [np.rot90] on an array of at least two axes is [k mod 4] quarter turns. *)
Lemma rot90_quarters (x : ndarray A) (k : Z) :
  shaped x -> rot90 x k = Some (Nat.iter (Z.to_nat (k mod 4)) quarter x).
Proof.
  intros Hx. destruct (shaped_split x Hx) as (lead & h & w & d & -> & Hd).
  rewrite rot90_app. destruct (iter_quarter_app lead h w d Hd) as (E1 & E2 & E3 & _).
  assert (Hq : (0 <= k mod 4 < 4)%Z) by (apply Z.mod_pos_bound; lia).
  assert (E : (k mod 4 = 0 \/ k mod 4 = 1 \/ k mod 4 = 2 \/ k mod 4 = 3)%Z) by lia.
  destruct E as [E|[E|[E|E]]]; rewrite E.
  - reflexivity.
  - rewrite <- E1; reflexivity.
  - rewrite <- E2; reflexivity.
  - rewrite <- E3; reflexivity.
Qed.

Lemma flip_and_rotate_quarters (x : ndarray A) (k f : Z) :
  shaped x ->
  _flip_and_rotate x k f = Some (flip_if f (Nat.iter (Z.to_nat (k mod 4)) quarter x)).
Proof. intros Hx. unfold _flip_and_rotate. rewrite rot90_quarters by exact Hx. reflexivity. Qed.

(** Flip, quarter turn, flip: three quarter turns. *)
Lemma flip_quarter_flip (y : ndarray A) :
  shaped y -> flip_last (quarter (flip_last y)) = Nat.iter 3 quarter y.
Proof.
  intros Hy. destruct (shaped_split y Hy) as (lead & h & w & d & -> & Hd).
  destruct (iter_quarter_app lead h w d Hd) as (_ & _ & E3 & _). rewrite E3.
  rewrite flip_last_app, quarter_app, flip_last_app, flip_rot1_flip_data. reflexivity.
Qed.

Lemma flip_iter_flip (n : nat) (y : ndarray A) :
  shaped y -> flip_last (Nat.iter n quarter (flip_last y)) = Nat.iter (3 * n) quarter y.
Proof.
  intros Hy. induction n as [|n IH].
  - apply flip_last_twice. exact Hy.
  - change (Nat.iter (S n) quarter (flip_last y))
      with (quarter (Nat.iter n quarter (flip_last y))).
    rewrite <- (flip_last_twice (Nat.iter n quarter (flip_last y)))
      by (apply iter_quarter_shaped, flip_last_shaped, Hy).
    rewrite IH, flip_quarter_flip by (apply iter_quarter_shaped, Hy).
    replace (3 * S n) with (3 + 3 * n) by lia. rewrite Nat.iter_add. reflexivity.
Qed.

End QuarterTurns.

Lemma quarters_add (k1 k2 : Z) :
  (Z.to_nat (k2 mod 4) + Z.to_nat (k1 mod 4)) mod 4 = Z.to_nat ((k1 + k2) mod 4) mod 4.
Proof.
  rewrite Zplus_mod.
  assert (H1 : (0 <= k1 mod 4 < 4)%Z) by (apply Z.mod_pos_bound; lia).
  assert (H2 : (0 <= k2 mod 4 < 4)%Z) by (apply Z.mod_pos_bound; lia).
  assert (E1 : (k1 mod 4 = 0 \/ k1 mod 4 = 1 \/ k1 mod 4 = 2 \/ k1 mod 4 = 3)%Z) by lia.
  assert (E2 : (k2 mod 4 = 0 \/ k2 mod 4 = 1 \/ k2 mod 4 = 2 \/ k2 mod 4 = 3)%Z) by lia.
  destruct E1 as [ E1 | [ E1 | [ E1 | E1 ]]]; rewrite E1;
    destruct E2 as [ E2 | [ E2 | [ E2 | E2 ]]]; rewrite E2; reflexivity.
Qed.

Lemma quarters_neg (k : Z) :
  (3 * Z.to_nat (k mod 4)) mod 4 = Z.to_nat ((- k) mod 4) mod 4.
Proof.
  assert (H1 : (0 <= k mod 4 < 4)%Z) by (apply Z.mod_pos_bound; lia).
  assert (En : ((- k) mod 4 = (4 - k mod 4) mod 4)%Z).
  { pose proof (Z.div_mod k 4) as D.
    replace (- k)%Z with ((4 - k mod 4) + (- (k / 4) - 1) * 4)%Z by lia.
    apply Z.mod_add. lia. }
  rewrite En.
  assert (E1 : (k mod 4 = 0 \/ k mod 4 = 1 \/ k mod 4 = 2 \/ k mod 4 = 3)%Z) by lia.
  destruct E1 as [ E1 | [ E1 | [ E1 | E1 ]]]; rewrite E1; reflexivity.
Qed.

Section Inverses.
Context {A : Type} `{DType A}.

Lemma flip_and_rotate_compose (x : ndarray A) (k1 k2 : Z) :
  shaped x ->
  obind (_flip_and_rotate x k1 0) (fun y => _flip_and_rotate y k2 0)
  = _flip_and_rotate x (k1 + k2) 0.
Proof.
  intros Hx. rewrite !flip_and_rotate_quarters by exact Hx. cbn [obind].
  unfold flip_if; cbn [Z.eqb Pos.eqb].
  rewrite flip_and_rotate_quarters by (apply iter_quarter_shaped, Hx).
  unfold flip_if; cbn [Z.eqb Pos.eqb].
  rewrite <- Nat.iter_add, (iter_quarter_mod _ x Hx), quarters_add.
  rewrite <- (iter_quarter_mod _ x Hx). reflexivity.
Qed.

Lemma flip_and_rotate_flip_undo (x : ndarray A) (k : Z) :
  shaped x ->
  obind (_flip_and_rotate x k 1) (fun y => _flip_and_rotate y k 1) = Some x.
Proof.
  intros Hx. rewrite flip_and_rotate_quarters by exact Hx. cbn [obind].
  unfold flip_if; cbn [Z.eqb Pos.eqb].
  rewrite flip_and_rotate_quarters
    by (apply flip_last_shaped, iter_quarter_shaped, Hx).
  unfold flip_if; cbn [Z.eqb Pos.eqb].
  rewrite flip_iter_flip by (apply iter_quarter_shaped, Hx).
  rewrite <- Nat.iter_add, (iter_quarter_mod _ x Hx).
  replace (3 * Z.to_nat (k mod 4) + Z.to_nat (k mod 4))
    with (Z.to_nat (k mod 4) * 4) by lia.
  rewrite Nat.Div0.mod_mul. reflexivity.
Qed.

(** Every augmentation state is undone by one further call. *)
Lemma flip_and_rotate_undo (x : ndarray A) (k f : Z) :
  shaped x ->
  obind (_flip_and_rotate x k f)
        (fun y => _flip_and_rotate y (if (f =? 1)%Z then k else - k)
                                   (if (f =? 1)%Z then 1 else 0))
  = Some x.
Proof.
  intros Hx. destruct (f =? 1)%Z eqn:Ef.
  - apply Z.eqb_eq in Ef. subst f. apply flip_and_rotate_flip_undo, Hx.
  - assert (E : _flip_and_rotate x k f = _flip_and_rotate x k 0).
    { unfold _flip_and_rotate. rewrite Ef. reflexivity. }
    rewrite E, flip_and_rotate_compose by exact Hx.
    replace (k + - k)%Z with 0%Z by lia.
    rewrite flip_and_rotate_quarters by exact Hx. reflexivity.
Qed.

End Inverses.

Section Naturality.
Context {A B : Type} `{DType A} `{DType B}.

Lemma nd_map_app (g : A -> B) (s : list nat) (d : list A) :
  nd_map g (mk_nd s d) = mk_nd s (map g d).
Proof. reflexivity. Qed.

Lemma shaped_nd_map (g : A -> B) (x : ndarray A) : shaped x -> shaped (nd_map g x).
Proof.
  intros [Hwf Hn]. split; [unfold wf in *; cbn; rewrite length_map; exact Hwf | exact Hn].
Qed.

Lemma quarter_nd_map (g : A -> B) (x : ndarray A) :
  shaped x -> quarter (nd_map g x) = nd_map g (quarter x).
Proof.
  intros Hx. destruct (shaped_split x Hx) as (lead & h & w & d & -> & Hd).
  rewrite nd_map_app, !quarter_app, nd_map_app. f_equal.
  unfold rot1_data. rewrite map_build. apply build_ext. intros b r c Hb Hr Hc.
  apply (get_map g (size lead)); [exact Hd | lia | lia | lia].
Qed.

Lemma flip_last_nd_map (g : A -> B) (x : ndarray A) :
  shaped x -> flip_last (nd_map g x) = nd_map g (flip_last x).
Proof.
  intros Hx. destruct (shaped_split x Hx) as (lead & h & w & d & -> & Hd).
  rewrite nd_map_app, !flip_last_app, nd_map_app. f_equal.
  unfold flip_cols_data. rewrite map_build. apply build_ext. intros b r c Hb Hr Hc.
  apply (get_map g (size lead)); [exact Hd | lia | lia | lia].
Qed.

Lemma iter_quarter_nd_map (g : A -> B) (n : nat) (x : ndarray A) :
  shaped x -> Nat.iter n quarter (nd_map g x) = nd_map g (Nat.iter n quarter x).
Proof.
  intros Hx. induction n as [|n IH]; [reflexivity|].
  change (quarter (Nat.iter n quarter (nd_map g x)) = nd_map g (quarter (Nat.iter n quarter x))).
  rewrite IH. apply quarter_nd_map, iter_quarter_shaped, Hx.
Qed.

(** [_flip_and_rotate] commutes with every elementwise map. *)
Lemma flip_and_rotate_nd_map (g : A -> B) (x : ndarray A) (k f : Z) :
  shaped x ->
  _flip_and_rotate (nd_map g x) k f = option_map (nd_map g) (_flip_and_rotate x k f).
Proof.
  intros Hx. rewrite !flip_and_rotate_quarters by (auto using shaped_nd_map).
  cbn [option_map]. f_equal. rewrite iter_quarter_nd_map by exact Hx.
  unfold flip_if. destruct (f =? 1)%Z; [|reflexivity].
  apply flip_last_nd_map, iter_quarter_shaped, Hx.
Qed.

End Naturality.

Section Contents.
Context {A : Type} `{DType A}.

Lemma quarter_incl (x : ndarray A) : shaped x -> incl (data (quarter x)) (data x).
Proof.
  intros Hx. destruct (shaped_split x Hx) as (lead & h & w & d & -> & Hd).
  rewrite quarter_app. intros v Hv. cbn [data] in *. unfold rot1_data in Hv.
  apply in_build in Hv as (b & r & c & Hb & Hr & Hc & ->).
  apply (get_in (size lead)); [exact Hd | lia | lia | lia].
Qed.

Lemma flip_last_incl (x : ndarray A) : shaped x -> incl (data (flip_last x)) (data x).
Proof.
  intros Hx. destruct (shaped_split x Hx) as (lead & h & w & d & -> & Hd).
  rewrite flip_last_app. intros v Hv. cbn [data] in *. unfold flip_cols_data in Hv.
  apply in_build in Hv as (b & r & c & Hb & Hr & Hc & ->).
  apply (get_in (size lead)); [exact Hd | lia | lia | lia].
Qed.

Lemma flip_and_rotate_incl (x y : ndarray A) (k f : Z) :
  shaped x -> _flip_and_rotate x k f = Some y -> incl (data y) (data x).
Proof.
  intros Hx E. rewrite flip_and_rotate_quarters in E by exact Hx.
  injection E as <-.
  assert (Hi : forall n, incl (data (Nat.iter n quarter x)) (data x)).
  { induction n as [|n IH]; [apply incl_refl|].
    eapply incl_tran; [apply quarter_incl, iter_quarter_shaped, Hx | exact IH]. }
  unfold flip_if. destruct (f =? 1)%Z; [|apply Hi].
  eapply incl_tran; [apply flip_last_incl, iter_quarter_shaped, Hx | apply Hi].
Qed.

Lemma shaped_length (x : ndarray A) : shaped x -> length (data x) = size (shape x).
Proof. intros [Hwf _]. exact Hwf. Qed.

Lemma flip_and_rotate_shaped (x y : ndarray A) (k f : Z) :
  shaped x -> _flip_and_rotate x k f = Some y -> shaped y.
Proof.
  intros Hx E. rewrite flip_and_rotate_quarters in E by exact Hx.
  injection E as <-. unfold flip_if. destruct (f =? 1)%Z;
  auto using flip_last_shaped, iter_quarter_shaped.
Qed.

Lemma flip_and_rotate_length (x y : ndarray A) (k f : Z) :
  shaped x -> _flip_and_rotate x k f = Some y -> length (data y) = length (data x).
Proof.
  intros Hx E. rewrite flip_and_rotate_quarters in E by exact Hx.
  injection E as <-.
  assert (Hq : forall z, shaped z -> length (data (quarter z)) = length (data z)).
  { intros z Hz. destruct (shaped_split z Hz) as (lead & h & w & d & -> & Hd).
    rewrite quarter_app. cbn [data]. unfold rot1_data. rewrite length_build. lia. }
  assert (Hi : forall n, length (data (Nat.iter n quarter x)) = length (data x)).
  { induction n as [|n IH]; [reflexivity|].
    change (length (data (quarter (Nat.iter n quarter x))) = length (data x)).
    rewrite Hq by (apply iter_quarter_shaped, Hx). exact IH. }
  unfold flip_if. destruct (f =? 1)%Z; [|apply Hi].
  pose proof (iter_quarter_shaped (Z.to_nat (k mod 4)) x Hx) as Hz.
  destruct (shaped_split _ Hz) as (lead & h & w & d & Ez & Hd).
  rewrite Ez, flip_last_app. cbn [data]. unfold flip_cols_data. rewrite length_build.
  rewrite <- (Hi (Z.to_nat (k mod 4))), Ez. cbn [data]. lia.
Qed.

Lemma map_nth_seq (d : list A) :
  map (fun i => nth i d dtype_zero) (seq 0 (length d)) = d.
Proof.
  apply nth_ext with (d := dtype_zero) (d' := dtype_zero).
  - rewrite length_map, length_seq. reflexivity.
  - intros i Hi. rewrite length_map, length_seq in Hi.
    pose proof (map_nth (fun j => nth j d dtype_zero) (seq 0 (length d)) 0 i) as E.
    cbv beta in E. rewrite seq_nth in E by lia. simpl in E. rewrite <- E.
    apply nth_indep. rewrite length_map, length_seq. lia.
Qed.

(** An array is its index map with each index replaced by its element. *)
Lemma index_map_lookup (x : ndarray A) :
  shaped x ->
  shaped (index_map (shape x)) /\
  x = nd_map (fun i => nth i (data x) dtype_zero) (index_map (shape x)).
Proof.
  intros Hx. pose proof (shaped_length x Hx) as Hl. split.
  - destruct Hx as [_ Hn]. split; [unfold wf; cbn; apply length_seq | exact Hn].
  - destruct x as [s d]. unfold index_map, nd_map; cbn [shape data] in *.
    rewrite <- Hl, map_nth_seq. reflexivity.
Qed.

End Contents.

(** The index map run through [_flip_and_rotate] lists each source position
    exactly once. *)
Lemma flip_and_rotate_index_perm (s : list nat) (k f : Z) (t : ndarray nat) :
  shaped (index_map s) -> _flip_and_rotate (index_map s) k f = Some t ->
  Permutation (data t) (seq 0 (size s)).
Proof.
  intros Hs Et.
  pose proof (flip_and_rotate_undo (index_map s) k f Hs) as U.
  rewrite Et in U. cbn [obind] in U.
  assert (Hts : incl (data t) (seq 0 (size s)))
    by exact (flip_and_rotate_incl _ _ _ _ Hs Et).
  assert (Hst : incl (seq 0 (size s)) (data t))
    by exact (flip_and_rotate_incl _ _ _ _ (flip_and_rotate_shaped _ _ _ _ Hs Et) U).
  assert (Hlen : length (data t) = length (seq 0 (size s)))
    by exact (flip_and_rotate_length _ _ _ _ Hs Et).
  assert (Hnd : NoDup (data t)).
  { apply (@NoDup_incl_NoDup _ (seq 0 (size s))); [apply seq_NoDup | lia | exact Hst]. }
  apply NoDup_Permutation; [exact Hnd | apply seq_NoDup |].
  intros v; split; [apply Hts | apply Hst].
Qed.

(** An array run through [_flip_and_rotate] is its index map run through it,
    each index then looked up in the source buffer. *)
Lemma flip_and_rotate_reindex {A} `{DType A} (x : ndarray A) (k f : Z) :
  shaped x ->
  exists t, _flip_and_rotate (index_map (shape x)) k f = Some t /\
    Permutation (data t) (seq 0 (size (shape x))) /\
    _flip_and_rotate x k f = Some (nd_map (fun i => nth i (data x) dtype_zero) t).
Proof.
  intros Hx. destruct (index_map_lookup x Hx) as [Hi Ex].
  destruct (flip_and_rotate_some (index_map (shape x)) k f (proj2 Hi)) as [t Et].
  exists t. split; [exact Et | split].
  - exact (flip_and_rotate_index_perm _ _ _ _ Hi Et).
  - transitivity (_flip_and_rotate
      (nd_map (fun i => nth i (data x) dtype_zero) (index_map (shape x))) k f).
    + f_equal. exact Ex.
    + rewrite flip_and_rotate_nd_map, Et by exact Hi. reflexivity.
Qed.

(** The two draws of [augment_batch], named; a negative seed raises before
    any draw. *)
Lemma augment_batch_states {A} `{DType A} (Generator : Type)
    (default_rng : Z -> Generator) (integers : Generator -> Z -> Z -> Z * Generator)
    (seed : Z) :
  exists r f, forall patch target : ndarray A,
    augment_batch default_rng integers patch target seed
    = if (seed <? 0)%Z then None
      else pair_results (_flip_and_rotate patch r f) (_flip_and_rotate target r f).
Proof.
  unfold augment_batch, seeded_rng. destruct (seed <? 0)%Z.
  - exists 0%Z, 0%Z. intros patch target. reflexivity.
  - destruct (integers (default_rng seed) 0%Z 4%Z) as [r g1].
    destruct (integers g1 0%Z 2%Z) as [f g2].
    exists r, f. intros patch target. reflexivity.
Qed.

(** [augment_batch] commutes with every elementwise map applied to both
    arrays. *)
Lemma augment_batch_nd_map {A B} `{DType A} `{DType B} (Generator : Type)
    (default_rng : Z -> Generator) (integers : Generator -> Z -> Z -> Z * Generator)
    (g : A -> B) (patch target : ndarray A) (seed : Z) :
  shaped patch -> shaped target ->
  augment_batch default_rng integers (nd_map g patch) (nd_map g target) seed
  = option_map (fun '(a, b) => (nd_map g a, nd_map g b))
               (augment_batch default_rng integers patch target seed).
Proof.
  intros Hp Ht. unfold augment_batch, seeded_rng. destruct (seed <? 0)%Z; [reflexivity|].
  destruct (integers (default_rng seed) 0%Z 4%Z) as [r g1].
  destruct (integers g1 0%Z 2%Z) as [f g2].
  rewrite !flip_and_rotate_nd_map by assumption.
  destruct (_flip_and_rotate patch r f), (_flip_and_rotate target r f); reflexivity.
Qed.

(** * Claims *)

(** C7: for every (well-formed) array with at least two axes, four
    successive calls of [_flip_and_rotate] with [rotate_state = 1] and
    [flip_state = 0] give back the original array exactly. *)
Theorem flip_and_rotate_four_quarter_turns {A} `{DType A} (x : ndarray A) :
  wf x -> 2 <= ndim x ->
  obind (_flip_and_rotate x 1 0) (fun y1 =>
  obind (_flip_and_rotate y1 1 0) (fun y2 =>
  obind (_flip_and_rotate y2 1 0) (fun y3 =>
  _flip_and_rotate y3 1 0))) = Some x.
Proof.
  intros Hwf Hn. destruct (wf_split x Hwf Hn) as (lead & h & w & Ex & Hd).
  destruct x as [s d]; cbn [data] in Ex, Hd; rewrite Ex.
  do 2 step_far. rewrite rot1_data_twice.
  do 2 step_far.
  rewrite rot1_data_twice, rot2_data_twice by exact Hd.
  reflexivity.
Qed.

Lemma flip_and_rotate_four_quarter_turns_witness :
  wf batch223 /\ 2 <= ndim batch223 /\
  obind (_flip_and_rotate batch223 1 0) (fun y1 =>
  obind (_flip_and_rotate y1 1 0) (fun y2 =>
  obind (_flip_and_rotate y2 1 0) (fun y3 =>
  _flip_and_rotate y3 1 0))) = Some batch223.
Proof.
  split; [reflexivity | split; [vm_compute; lia |]].
  apply flip_and_rotate_four_quarter_turns; [reflexivity | vm_compute; lia].
Defined.

(** C8: for every (well-formed) array with at least two axes, two calls of
    [_flip_and_rotate] with [rotate_state = 0] and [flip_state = 1] give back
    the original array exactly. *)
Theorem flip_and_rotate_flip_involution {A} `{DType A} (x : ndarray A) :
  wf x -> 2 <= ndim x ->
  obind (_flip_and_rotate x 0 1) (fun y => _flip_and_rotate y 0 1) = Some x.
Proof.
  intros Hwf Hn. destruct (wf_split x Hwf Hn) as (lead & h & w & Ex & Hd).
  destruct x as [s d]; cbn [data] in Ex, Hd; rewrite Ex.
  step_far. rewrite flip_last_app.
  step_far. rewrite flip_last_app, flip_cols_data_twice by exact Hd.
  reflexivity.
Qed.

Lemma flip_and_rotate_flip_involution_witness :
  wf batch223 /\ 2 <= ndim batch223 /\
  obind (_flip_and_rotate batch223 0 1) (fun y => _flip_and_rotate y 0 1)
  = Some batch223.
Proof.
  split; [reflexivity | split; [vm_compute; lia |]].
  apply flip_and_rotate_flip_involution; [reflexivity | vm_compute; lia].
Defined.

(** C9: for every array of shape [lead ++ [h; w]] (any [h], [w], square or
    not) and [rotate_state] in [{0, 1, 2, 3}], [_flip_and_rotate] returns an
    array of shape [lead ++ [w; h]] when [rotate_state] is 1 or 3 and of shape
    [lead ++ [h; w]] when it is 0 or 2, whatever [flip_state]; the leading
    axes [lead] are kept. *)
Theorem flip_and_rotate_shape {A} `{DType A} (x : ndarray A) (lead : list nat)
    (h w : nat) (rotate_state flip_state : Z) :
  shape x = lead ++ [h; w] -> (0 <= rotate_state <= 3)%Z ->
  exists y, _flip_and_rotate x rotate_state flip_state = Some y /\
    shape y = (if orb (rotate_state =? 1) (rotate_state =? 3)
               then lead ++ [w; h] else lead ++ [h; w])%Z.
Proof.
  intros Hs Hk. destruct x as [s d]; cbn [shape] in Hs; subst s.
  rewrite flip_and_rotate_app. eexists; split; [reflexivity|].
  destruct (flip_state =? 1)%Z; [rewrite flip_last_shape|];
  (assert (E : rotate_state = 0%Z \/ rotate_state = 1%Z \/
               rotate_state = 2%Z \/ rotate_state = 3%Z) by lia;
   destruct E as [E|[E|[E|E]]]; subst rotate_state; reflexivity).
Qed.

Lemma flip_and_rotate_shape_witness :
  shape patch23 = [] ++ [2; 3] /\ (0 <= 1 <= 3)%Z /\
  exists y, _flip_and_rotate patch23 1 1 = Some y /\ shape y = [] ++ [3; 2].
Proof.
  split; [reflexivity | split; [lia |]].
  apply (flip_and_rotate_shape patch23 [] 2 3 1 1); [reflexivity | lia].
Defined.


(** C10 (as corrected): [_flip_and_rotate] is periodic in [rotate_state]
    with period 4 and treats every [flip_state] other than 1 as no flip, for
    every array; it returns an array for every integer [rotate_state] and
    [flip_state] when the array has at least two axes, and raises (numpy's
    [ValueError]) when it has fewer. *)
Theorem flip_and_rotate_total_periodic {A} `{DType A} (x : ndarray A) (k f : Z) :
  _flip_and_rotate x k f = _flip_and_rotate x (k mod 4) f /\
  ((f <> 1)%Z -> _flip_and_rotate x k f = _flip_and_rotate x k 0) /\
  (2 <= ndim x -> exists y, _flip_and_rotate x k f = Some y) /\
  (ndim x < 2 -> _flip_and_rotate x k f = None).
Proof.
  split; [| split; [| split]].
  - unfold _flip_and_rotate. rewrite rot90_mod. reflexivity.
  - intros Hf. unfold _flip_and_rotate.
    apply Z.eqb_neq in Hf. rewrite Hf. reflexivity.
  - apply flip_and_rotate_some.
  - apply flip_and_rotate_raises.
Qed.

Lemma flip_and_rotate_total_periodic_witness :
  _flip_and_rotate patch23 7 5 = _flip_and_rotate patch23 3 5 /\
  _flip_and_rotate patch23 7 5 = _flip_and_rotate patch23 7 0 /\
  (exists y, _flip_and_rotate patch23 7 5 = Some y).
Proof.
  destruct (flip_and_rotate_total_periodic patch23 7 5) as (E1 & E2 & E3 & _).
  split; [exact E1 | split; [apply E2; lia | apply E3; vm_compute; lia]].
Defined.

(** C10, counterexample: on a one-axis array the primitive is not total;
    [np.rot90] raises. *)
Lemma flip_and_rotate_vector_raises : _flip_and_rotate vector3 0 0 = None.
Proof. vm_compute. reflexivity. Qed.

(** C6 (as corrected): [_flip_and_rotate] validates neither argument: for
    every array with at least two axes and every integer [rotate_state] and
    [flip_state] it returns an array, namely the [np.rot90] result for
    [rotate_state mod 4], flipped along the last axis exactly when
    [flip_state = 1]. *)
Theorem flip_and_rotate_no_validation {A} `{DType A} (x : ndarray A) (k f : Z) :
  2 <= ndim x ->
  exists r, rot90 x (k mod 4) = Some r /\
            _flip_and_rotate x k f = Some (if (f =? 1)%Z then flip_last r else r).
Proof.
  intros Hn. destruct (split_last2_spec (shape x) Hn) as (lead & h & w & E).
  destruct x as [s d]; cbn [shape] in E; subst s.
  rewrite rot90_app, flip_and_rotate_app, Zmod_mod.
  eexists; split; reflexivity.
Qed.

Lemma flip_and_rotate_no_validation_witness :
  2 <= ndim patch22 /\
  exists r, rot90 patch22 (5 mod 4) = Some r /\
            _flip_and_rotate patch22 5 2 = Some (if (2 =? 1)%Z then flip_last r else r).
Proof.
  split; [vm_compute; lia |].
  apply flip_and_rotate_no_validation. vm_compute; lia.
Defined.

(** C6, counterexample: [rotate_state = 5] and [flip_state = 2] are outside
    [{0,1,2,3}] and [{0,1}], and the call returns the quarter-turned array
    instead of signalling an error. *)
Lemma flip_and_rotate_out_of_range_accepted :
  _flip_and_rotate patch22 5 2 = Some (mk_nd [2; 2] [2; 4; 1; 3]%Z).
Proof. vm_compute. reflexivity. Qed.

(** C1: whatever generator [np.random.default_rng] builds, one call of
    [augment_batch] applies one and the same [rotate_state] and [flip_state]
    to [patch] and to [target] (a negative seed raises before either array
    is touched); so an array passed as both gives two identical outputs
    whenever the call returns. *)
Theorem augment_batch_joint_consistency {A} `{DType A} (Generator : Type)
    (default_rng : Z -> Generator) (integers : Generator -> Z -> Z -> Z * Generator)
    (patch target : ndarray A) (seed : Z) :
  (exists rotate_state flip_state,
     augment_batch default_rng integers patch target seed
     = if (seed <? 0)%Z then None
       else pair_results (_flip_and_rotate patch rotate_state flip_state)
                         (_flip_and_rotate target rotate_state flip_state)) /\
  (augment_batch default_rng integers patch patch seed = None \/
   exists y, augment_batch default_rng integers patch patch seed = Some (y, y)).
Proof.
  destruct (augment_batch_states Generator default_rng integers seed) as (r & f & Eb).
  split.
  - exists r, f. apply Eb.
  - rewrite Eb. destruct (seed <? 0)%Z; [left; reflexivity|].
    destruct (_flip_and_rotate patch r f) as [y|]; cbn [pair_results];
      [right; exists y; reflexivity | left; reflexivity].
Qed.

(** C2: for every seed, [augment_batch] draws one pair
    [(rotate_state, flip_state)] that depends on the seed alone (the
    generator is built afresh from the seed at each call), so every call
    with that seed, on any arrays, applies the same decisions and returns
    the same arrays; with a negative seed every call raises alike. *)
Theorem augment_batch_deterministic {A} `{DType A} (Generator : Type)
    (default_rng : Z -> Generator) (integers : Generator -> Z -> Z -> Z * Generator)
    (seed : Z) :
  exists rotate_state flip_state, forall patch target : ndarray A,
    augment_batch default_rng integers patch target seed
    = if (seed <? 0)%Z then None
      else pair_results (_flip_and_rotate patch rotate_state flip_state)
                        (_flip_and_rotate target rotate_state flip_state).
Proof.
  unfold augment_batch, seeded_rng. destruct (seed <? 0)%Z.
  - exists 0%Z, 0%Z. intros patch target. reflexivity.
  - destruct (integers (default_rng seed) 0%Z 4%Z) as [r g1].
    destruct (integers g1 0%Z 2%Z) as [f g2].
    exists r, f. intros patch target. reflexivity.
Qed.

(** C5 (as corrected): [augment_batch] does not compare the shapes of
    [patch] and [target]: for any generator and any non-negative seed, when
    both have at least two axes it returns the two arrays transformed with
    the same [rotate_state] and [flip_state], whatever their spatial
    shapes. *)
Theorem augment_batch_no_shape_check {A} `{DType A} (Generator : Type)
    (default_rng : Z -> Generator) (integers : Generator -> Z -> Z -> Z * Generator)
    (patch target : ndarray A) (seed : Z) :
  (0 <= seed)%Z -> 2 <= ndim patch -> 2 <= ndim target ->
  exists rotate_state flip_state out1 out2,
    _flip_and_rotate patch rotate_state flip_state = Some out1 /\
    _flip_and_rotate target rotate_state flip_state = Some out2 /\
    augment_batch default_rng integers patch target seed = Some (out1, out2).
Proof.
  intros Hs Hp Ht. unfold augment_batch, seeded_rng.
  replace (seed <? 0)%Z with false by (symmetry; apply Z.ltb_ge; exact Hs).
  destruct (integers (default_rng seed) 0%Z 4%Z) as [r g1].
  destruct (integers g1 0%Z 2%Z) as [f g2].
  destruct (flip_and_rotate_some patch r f Hp) as [y1 E1].
  destruct (flip_and_rotate_some target r f Ht) as [y2 E2].
  exists r, f, y1, y2. rewrite E1, E2. auto.
Qed.

Lemma augment_batch_no_shape_check_witness :
  (0 <= 42)%Z /\ 2 <= ndim patch23 /\ 2 <= ndim patch22 /\
  exists rotate_state flip_state out1 out2,
    _flip_and_rotate patch23 rotate_state flip_state = Some out1 /\
    _flip_and_rotate patch22 rotate_state flip_state = Some out2 /\
    augment_batch (scripted_rng [1; 0]%Z) scripted_integers patch23 patch22 42
    = Some (out1, out2).
Proof.
  split; [lia | split; [vm_compute; lia | split; [vm_compute; lia |]]].
  apply augment_batch_no_shape_check; [lia | vm_compute; lia | vm_compute; lia].
Defined.

(** C5, counterexample: a 2x3 patch with a 2x2 target. For each of the
    eight pairs numpy's generator can draw for the seed, [augment_batch]
    returns two arrays and signals nothing. *)
Lemma augment_batch_mismatch_accepted :
  forallb (fun '(r, f) =>
             match augment_batch (scripted_rng [r; f]) scripted_integers
                                 patch23 patch22 42 with
             | Some _ => true
             | None => false
             end) numpy_draws = true.
Proof. vm_compute. reflexivity. Qed.

(** C3 (as corrected): over exact arithmetic [denormalize] with the same
    [mean] and [std <> 0] inverts [normalize] exactly, for every array; in
    [float64] the round trip is not within rounding tolerance in general:
    for [x = 2^1000], [mean = 0], [std = 2^-100] the intermediate
    [(x - mean) / std] overflows and the result is [inf]. *)
Theorem normalize_denormalize_roundtrip (x : ndarray R) (mean std : R) :
  std <> 0%R ->
  denormalize (normalize x mean std) mean std = x /\
  denormalize (normalize big_image 0%float small_std) 0%float small_std
  = mk_nd [1] [PrimFloat.infinity].
Proof.
  intros Hstd. split.
  - destruct x as [s d]. unfold denormalize, normalize; cbn [shape data]. f_equal.
    rewrite map_map. rewrite <- (map_id d) at 2. apply map_ext. intros v.
    cbn [a_add a_sub a_mul a_div Arith_R]. field. exact Hstd.
  - vm_compute. reflexivity.
Qed.

Lemma normalize_denormalize_roundtrip_witness :
  (2 <> 0)%R /\
  denormalize (normalize (mk_nd [2] [1; 3]%R) 1%R 2%R) 1%R 2%R = mk_nd [2] [1; 3]%R.
Proof.
  assert (H2 : (2 <> 0)%R) by (apply not_0_IZR; discriminate).
  split; [exact H2 |].
  exact (proj1 (normalize_denormalize_roundtrip (mk_nd [2] [1; 3]%R) 1%R 2%R H2)).
Defined.

(** C3, counterexample: the float64 round trip of [2^1000] with [mean = 0]
    and [std = 2^-100] gives [inf], not a value near [2^1000]. *)
Lemma normalize_denormalize_float_overflow :
  denormalize (normalize big_image 0%float small_std) 0%float small_std
  = mk_nd [1] [PrimFloat.infinity] /\
  PrimFloat.is_finite big_value = true.
Proof. split; vm_compute; reflexivity. Qed.

(** * Further properties of the code *)

(** X1: on an array with at least two axes, [_flip_and_rotate] returns an
    array of at least two axes whose buffer is a permutation of the input's:
    it moves elements and never creates, drops or changes one. *)
Theorem flip_and_rotate_permutes {A} `{DType A} (x : ndarray A) (k f : Z) :
  shaped x ->
  exists y, _flip_and_rotate x k f = Some y /\ shaped y /\ Permutation (data y) (data x).
Proof.
  intros Hx. destruct (flip_and_rotate_reindex x k f Hx) as (t & _ & Hp & E).
  exists (nd_map (fun i => nth i (data x) dtype_zero) t).
  split; [exact E | split; [exact (flip_and_rotate_shaped _ _ _ _ Hx E) |]].
  unfold nd_map; cbn [data].
  apply Permutation_trans
    with (l' := map (fun i => nth i (data x) dtype_zero) (seq 0 (length (data x)))).
  - rewrite (shaped_length x Hx). apply Permutation_map, Hp.
  - rewrite map_nth_seq. apply Permutation_refl.
Qed.

Lemma flip_and_rotate_permutes_witness :
  shaped batch223 /\
  exists y, _flip_and_rotate batch223 3 1 = Some y /\ shaped y /\
            Permutation (data y) (data batch223).
Proof.
  assert (Hs : shaped batch223) by (split; [reflexivity | vm_compute; lia]).
  split; [exact Hs | exact (flip_and_rotate_permutes batch223 3 1 Hs)].
Defined.

(** X2: without flips, rotations compose additively: [rotate_state = k1]
    followed by [rotate_state = k2] is [rotate_state = k1 + k2]. *)
Theorem flip_and_rotate_additive {A} `{DType A} (x : ndarray A) (k1 k2 : Z) :
  shaped x ->
  obind (_flip_and_rotate x k1 0) (fun y => _flip_and_rotate y k2 0)
  = _flip_and_rotate x (k1 + k2) 0.
Proof. apply flip_and_rotate_compose. Qed.

Lemma flip_and_rotate_additive_witness :
  shaped batch223 /\
  obind (_flip_and_rotate batch223 3 0) (fun y => _flip_and_rotate y 6 0)
  = _flip_and_rotate batch223 (3 + 6) 0.
Proof.
  assert (Hs : shaped batch223) by (split; [reflexivity | vm_compute; lia]).
  split; [exact Hs | exact (flip_and_rotate_additive batch223 3 6 Hs)].
Defined.

(** X3: every augmentation is undone by a second call: a flipped result by
    the same [(rotate_state, 1)], an unflipped one by [(-rotate_state, 0)]. *)
Theorem flip_and_rotate_inverse_state {A} `{DType A} (x : ndarray A) (k f : Z) :
  shaped x ->
  obind (_flip_and_rotate x k f)
        (fun y => _flip_and_rotate y (if (f =? 1)%Z then k else - k)
                                   (if (f =? 1)%Z then 1 else 0))
  = Some x.
Proof. apply flip_and_rotate_undo. Qed.

Lemma flip_and_rotate_inverse_state_witness :
  shaped patch23 /\
  obind (_flip_and_rotate patch23 3 0)
        (fun y => _flip_and_rotate y (if (0 =? 1)%Z then 3 else - 3)
                                   (if (0 =? 1)%Z then 1 else 0))
  = Some patch23.
Proof.
  assert (Hs : shaped patch23) by (split; [reflexivity | vm_compute; lia]).
  split; [exact Hs | exact (flip_and_rotate_inverse_state patch23 3 0 Hs)].
Defined.

(** X4: [normalize] and [denormalize] commute with [_flip_and_rotate], in any
    arithmetic (exact or float64): normalising then augmenting gives the
    augmented array normalised. *)
Theorem flip_and_rotate_normalize_commute {A} `{DType A} `{Arith A}
    (x : ndarray A) (mean std : A) (k f : Z) :
  shaped x ->
  _flip_and_rotate (normalize x mean std) k f
  = option_map (fun y => normalize y mean std) (_flip_and_rotate x k f) /\
  _flip_and_rotate (denormalize x mean std) k f
  = option_map (fun y => denormalize y mean std) (_flip_and_rotate x k f).
Proof.
  intros Hx. split.
  - exact (flip_and_rotate_nd_map (fun v => a_div (a_sub v mean) std) x k f Hx).
  - exact (flip_and_rotate_nd_map (fun v => a_add (a_mul v std) mean) x k f Hx).
Qed.

Lemma flip_and_rotate_normalize_commute_witness :
  shaped (mk_nd [2; 2] [1; 2; 3; 4]%R) /\
  _flip_and_rotate (normalize (mk_nd [2; 2] [1; 2; 3; 4]%R) 1%R 2%R) 1 1
  = option_map (fun y => normalize y 1%R 2%R)
               (_flip_and_rotate (mk_nd [2; 2] [1; 2; 3; 4]%R) 1 1) /\
  _flip_and_rotate (denormalize (mk_nd [2; 2] [1; 2; 3; 4]%R) 1%R 2%R) 1 1
  = option_map (fun y => denormalize y 1%R 2%R)
               (_flip_and_rotate (mk_nd [2; 2] [1; 2; 3; 4]%R) 1 1).
Proof.
  assert (Hs : shaped (mk_nd [2; 2] [1; 2; 3; 4]%R))
    by (split; [reflexivity | vm_compute; lia]).
  split; [exact Hs | exact (flip_and_rotate_normalize_commute _ 1%R 2%R 1 1 Hs)].
Defined.

(** X5: for a patch and a target of the same shape, [augment_batch] moves
    their elements identically: one permutation [perm] of the flat positions
    gives both outputs, so pixel [i] of [patch] and pixel [i] of [target]
    land at the same place. This holds for every non-negative seed (a
    negative one raises in [np.random.default_rng]). *)
Theorem augment_batch_aligned {A} `{DType A} (Generator : Type)
    (default_rng : Z -> Generator) (integers : Generator -> Z -> Z -> Z * Generator)
    (patch target : ndarray A) (seed : Z) :
  (0 <= seed)%Z -> shaped patch -> shaped target -> shape patch = shape target ->
  exists out1 out2 perm,
    augment_batch default_rng integers patch target seed = Some (out1, out2) /\
    shape out1 = shape out2 /\
    Permutation perm (seq 0 (size (shape patch))) /\
    data out1 = map (fun i => nth i (data patch) dtype_zero) perm /\
    data out2 = map (fun i => nth i (data target) dtype_zero) perm.
Proof.
  intros Hs Hp Ht Es.
  destruct (augment_batch_states Generator default_rng integers seed) as (r & f & Eb).
  rewrite Eb. replace (seed <? 0)%Z with false by (symmetry; apply Z.ltb_ge; exact Hs).
  destruct (flip_and_rotate_reindex patch r f Hp) as (t1 & E1 & P1 & F1).
  destruct (flip_and_rotate_reindex target r f Ht) as (t2 & E2 & _ & F2).
  rewrite <- Es, E1 in E2. injection E2 as <-.
  rewrite F1, F2. cbn [pair_results].
  exists (nd_map (fun i => nth i (data patch) dtype_zero) t1),
         (nd_map (fun i => nth i (data target) dtype_zero) t1), (data t1).
  split; [reflexivity | split; [reflexivity | split; [exact P1 | split; reflexivity]]].
Qed.

Lemma augment_batch_aligned_witness :
  (0 <= 0)%Z /\ shaped patch22 /\ shaped target22 /\ shape patch22 = shape target22 /\
  exists out1 out2 perm,
    augment_batch (scripted_rng [1; 1]%Z) scripted_integers patch22 target22 0
    = Some (out1, out2) /\
    shape out1 = shape out2 /\
    Permutation perm (seq 0 (size (shape patch22))) /\
    data out1 = map (fun i => nth i (data patch22) dtype_zero) perm /\
    data out2 = map (fun i => nth i (data target22) dtype_zero) perm.
Proof.
  assert (Hp : shaped patch22) by (split; [reflexivity | vm_compute; lia]).
  assert (Ht : shaped target22) by (split; [reflexivity | vm_compute; lia]).
  assert (Es : shape patch22 = shape target22) by reflexivity.
  assert (Hs : (0 <= 0)%Z) by lia.
  split; [exact Hs | split; [exact Hp | split; [exact Ht | split; [exact Es |]]]].
  exact (augment_batch_aligned _ (scripted_rng [1; 1]%Z) scripted_integers
           patch22 target22 0 Hs Hp Ht Es).
Defined.

(** X6: an augmented pair can always be mapped back: one further call of
    [_flip_and_rotate] with a single state restores both [patch] and
    [target]. *)
Theorem augment_batch_invertible {A} `{DType A} (Generator : Type)
    (default_rng : Z -> Generator) (integers : Generator -> Z -> Z -> Z * Generator)
    (patch target out1 out2 : ndarray A) (seed : Z) :
  shaped patch -> shaped target ->
  augment_batch default_rng integers patch target seed = Some (out1, out2) ->
  exists k f, _flip_and_rotate out1 k f = Some patch /\
              _flip_and_rotate out2 k f = Some target.
Proof.
  intros Hp Ht Eo.
  destruct (augment_batch_states Generator default_rng integers seed) as (r & f & Eb).
  rewrite Eb in Eo. destruct (seed <? 0)%Z; [discriminate|].
  destruct (_flip_and_rotate patch r f) as [y1|] eqn:E1; [|discriminate].
  destruct (_flip_and_rotate target r f) as [y2|] eqn:E2; [|discriminate].
  cbn [pair_results] in Eo. injection Eo as <- <-.
  pose proof (flip_and_rotate_undo patch r f Hp) as U1.
  pose proof (flip_and_rotate_undo target r f Ht) as U2.
  rewrite E1 in U1. rewrite E2 in U2. cbn [obind] in U1, U2.
  exists (if (f =? 1)%Z then r else - r)%Z, (if (f =? 1)%Z then 1 else 0)%Z.
  split; assumption.
Qed.

Lemma augment_batch_invertible_witness :
  shaped patch22 /\ shaped target22 /\
  augment_batch (scripted_rng [1; 1]%Z) scripted_integers patch22 target22 0
  = Some (mk_nd [2; 2] [4; 2; 3; 1]%Z, mk_nd [2; 2] [8; 6; 7; 5]%Z) /\
  exists k f, _flip_and_rotate (mk_nd [2; 2] [4; 2; 3; 1]%Z) k f = Some patch22 /\
              _flip_and_rotate (mk_nd [2; 2] [8; 6; 7; 5]%Z) k f = Some target22.
Proof.
  assert (Hp : shaped patch22) by (split; [reflexivity | vm_compute; lia]).
  assert (Ht : shaped target22) by (split; [reflexivity | vm_compute; lia]).
  assert (Eo : augment_batch (scripted_rng [1; 1]%Z) scripted_integers patch22 target22 0
               = Some (mk_nd [2; 2] [4; 2; 3; 1]%Z, mk_nd [2; 2] [8; 6; 7; 5]%Z))
    by (vm_compute; reflexivity).
  split; [exact Hp | split; [exact Ht | split; [exact Eo |]]].
  exact (augment_batch_invertible _ (scripted_rng [1; 1]%Z) scripted_integers
           patch22 target22 _ _ 0 Hp Ht Eo).
Defined.

(** X7: [augment_batch] raises exactly when the seed is negative or
    [patch] or [target] has fewer than two axes; otherwise it returns a
    pair, for every generator. *)
Theorem augment_batch_raises_iff {A} `{DType A} (Generator : Type)
    (default_rng : Z -> Generator) (integers : Generator -> Z -> Z -> Z * Generator)
    (patch target : ndarray A) (seed : Z) :
  augment_batch default_rng integers patch target seed = None <->
  (seed < 0)%Z \/ ndim patch < 2 \/ ndim target < 2.
Proof.
  destruct (augment_batch_states Generator default_rng integers seed) as (r & f & Eb).
  rewrite Eb. destruct (seed <? 0)%Z eqn:Es.
  { apply Z.ltb_lt in Es. split; [intros _; left; exact Es | intros _; reflexivity]. }
  apply Z.ltb_ge in Es.
  assert (Hneg : forall P : Prop, (seed < 0)%Z \/ P <-> P).
  { intros P. split; [intros [Hl|HP]; [lia | exact HP] | intros HP; right; exact HP]. }
  rewrite Hneg. split.
  - intros E.
    destruct (Nat.lt_ge_cases (ndim patch) 2) as [Hp|Hp]; [left; exact Hp|].
    destruct (Nat.lt_ge_cases (ndim target) 2) as [Ht|Ht]; [right; exact Ht|].
    destruct (flip_and_rotate_some patch r f Hp) as [y1 E1].
    destruct (flip_and_rotate_some target r f Ht) as [y2 E2].
    rewrite E1, E2 in E. discriminate.
  - intros [Hn|Hn]; rewrite (flip_and_rotate_raises _ r f Hn); cbn [pair_results];
      [reflexivity | destruct (_flip_and_rotate patch r f); reflexivity].
Qed.

(** X8: normalising (or denormalising) both arrays before [augment_batch]
    gives the augmented pair normalised (or denormalised): the order of the
    two steps in a pipeline does not matter. *)
Theorem augment_batch_normalize_commute {A} `{DType A} `{Arith A} (Generator : Type)
    (default_rng : Z -> Generator) (integers : Generator -> Z -> Z -> Z * Generator)
    (patch target : ndarray A) (mean std : A) (seed : Z) :
  shaped patch -> shaped target ->
  augment_batch default_rng integers
    (normalize patch mean std) (normalize target mean std) seed
  = option_map (fun '(a, b) => (normalize a mean std, normalize b mean std))
               (augment_batch default_rng integers patch target seed) /\
  augment_batch default_rng integers
    (denormalize patch mean std) (denormalize target mean std) seed
  = option_map (fun '(a, b) => (denormalize a mean std, denormalize b mean std))
               (augment_batch default_rng integers patch target seed).
Proof.
  intros Hp Ht. split.
  - exact (augment_batch_nd_map Generator default_rng integers
             (fun v => a_div (a_sub v mean) std) patch target seed Hp Ht).
  - exact (augment_batch_nd_map Generator default_rng integers
             (fun v => a_add (a_mul v std) mean) patch target seed Hp Ht).
Qed.

Lemma augment_batch_normalize_commute_witness :
  shaped (mk_nd [2; 2] [1; 2; 3; 4]%R) /\ shaped (mk_nd [2; 2] [5; 6; 7; 8]%R) /\
  augment_batch (scripted_rng [1; 1]%Z) scripted_integers
    (normalize (mk_nd [2; 2] [1; 2; 3; 4]%R) 1%R 2%R)
    (normalize (mk_nd [2; 2] [5; 6; 7; 8]%R) 1%R 2%R) 0
  = option_map (fun '(a, b) => (normalize a 1%R 2%R, normalize b 1%R 2%R))
      (augment_batch (scripted_rng [1; 1]%Z) scripted_integers
         (mk_nd [2; 2] [1; 2; 3; 4]%R) (mk_nd [2; 2] [5; 6; 7; 8]%R) 0).
Proof.
  assert (Hp : shaped (mk_nd [2; 2] [1; 2; 3; 4]%R))
    by (split; [reflexivity | vm_compute; lia]).
  assert (Ht : shaped (mk_nd [2; 2] [5; 6; 7; 8]%R))
    by (split; [reflexivity | vm_compute; lia]).
  split; [exact Hp | split; [exact Ht |]].
  exact (proj1 (augment_batch_normalize_commute _ (scripted_rng [1; 1]%Z)
                  scripted_integers _ _ 1%R 2%R 0 Hp Ht)).
Defined.

(** X9: over exact arithmetic, [normalize] with the same [mean] and
    [std <> 0] inverts [denormalize], for every array. *)
Theorem normalize_after_denormalize (x : ndarray R) (mean std : R) :
  std <> 0%R -> normalize (denormalize x mean std) mean std = x.
Proof.
  intros Hstd. destruct x as [s d]. unfold denormalize, normalize; cbn [shape data].
  f_equal. rewrite map_map. rewrite <- (map_id d) at 2. apply map_ext. intros v.
  cbn [a_add a_sub a_mul a_div Arith_R]. field. exact Hstd.
Qed.

Lemma normalize_after_denormalize_witness :
  (2 <> 0)%R /\
  normalize (denormalize (mk_nd [2] [1; 3]%R) 1%R 2%R) 1%R 2%R = mk_nd [2] [1; 3]%R.
Proof.
  assert (H2 : (2 <> 0)%R) by (apply not_0_IZR; discriminate).
  split; [exact H2 | exact (normalize_after_denormalize (mk_nd [2] [1; 3]%R) 1%R 2%R H2)].
Defined.

(** X10: over exact arithmetic, the default arguments [mean = 0.0] and
    [std = 1.0] make [normalize] and [denormalize] the identity. *)
Theorem normalize_denormalize_defaults (x : ndarray R) :
  normalize x 0%R 1%R = x /\ denormalize x 0%R 1%R = x.
Proof.
  destruct x as [s d]. unfold denormalize, normalize; cbn [shape data].
  split; f_equal; rewrite <- (map_id d) at 2; apply map_ext; intros v;
    cbn [a_add a_sub a_mul a_div Arith_R]; field.
Qed.

(** X11: flipping after rotating by [k] is rotating by [-k] after flipping:
    [_flip_and_rotate x k 1] equals [_flip_and_rotate (np.flip x -1) (-k) 0]. *)
Theorem flip_and_rotate_flip_first {A} `{DType A} (x : ndarray A) (k : Z) :
  shaped x -> _flip_and_rotate x k 1 = _flip_and_rotate (flip_last x) (- k) 0.
Proof.
  intros Hx. pose proof (flip_last_shaped x Hx) as Hf.
  rewrite (flip_and_rotate_quarters x), (flip_and_rotate_quarters (flip_last x))
    by assumption.
  unfold flip_if; cbn [Z.eqb Pos.eqb]. f_equal.
  rewrite <- (flip_last_twice x Hx) at 1.
  rewrite flip_iter_flip by exact Hf.
  rewrite (iter_quarter_mod (3 * _)), (iter_quarter_mod (Z.to_nat _)) by exact Hf.
  f_equal. apply quarters_neg.
Qed.

Lemma flip_and_rotate_flip_first_witness :
  shaped patch23 /\
  _flip_and_rotate patch23 1 1 = _flip_and_rotate (flip_last patch23) (- 1) 0.
Proof.
  assert (Hs : shaped patch23) by (split; [reflexivity | vm_compute; lia]).
  split; [exact Hs | exact (flip_and_rotate_flip_first patch23 1 Hs)].
Defined.
